(** * Verification of the boat tracker ([src/streamlit_app.py])

    A shallow embedding of the [GarminShareTracker] class: the geodesy
    helper, the per-vessel position fetcher with its cooldown gate, 429
    retry and cache fallback, the vessel registry with its colour palette
    and bounded history, and the proximity evaluator.

    Modelling conventions.
    - Coordinates and distances are real numbers ([R]); the source uses
      floats, whose rounding is not modelled.
    - Clock values ([time.time()]) are integers ([Z]) of seconds.
    - The network is a script: the list of outcomes that the successive
      [session.get] calls observe, in order.  An exhausted script stands
      for a refused connection.
    - The Streamlit calls [st.info], [st.warning] and [st.error], the
      [time.sleep] calls and the HTTP requests are recorded, in order, in
      an effect log.
    - Map widgets (markers, paths, circles) and the per-boat
      [requests.Session] objects are presentation or transport details and
      are left out of the boat record. *)

From Stdlib Require Import List String Ascii ZArith Lia Reals Lra Permutation.
Import ListNotations.

Local Open Scope Z_scope.

(* ------------------------------------------------------------------ *)
(** ** Python dictionaries as association lists in insertion order *)

Module Dict.

Section Dict.
Context {V : Type}.

(** [d.get(k)] *)
Fixpoint get (d : list (string * V)) (k : string) : option V :=
  match d with
  | [] => None
  | (k', v) :: d' => if String.eqb k k' then Some v else get d' k
  end.

(** [d.get(k, default)] *)
Definition get_default (d : list (string * V)) (k : string) (dflt : V) : V :=
  match get d k with Some v => v | None => dflt end.

(** [d[k] = v]: an existing key keeps its place, a new key goes last. *)
Fixpoint set (d : list (string * V)) (k : string) (v : V) : list (string * V) :=
  match d with
  | [] => [(k, v)]
  | (k', v') :: d' => if String.eqb k k' then (k', v) :: d' else (k', v') :: set d' k v
  end.

(** [d[k] = f(d[k])] for a present key; nothing for an absent one. *)
Fixpoint update (d : list (string * V)) (k : string) (f : V -> V) : list (string * V) :=
  match d with
  | [] => []
  | (k', v') :: d' => if String.eqb k k' then (k', f v') :: d' else (k', v') :: update d' k f
  end.

End Dict.

End Dict.

(* ------------------------------------------------------------------ *)
(** ** Data model *)

(** A position as produced by [get_position] (the [position_data] dict). *)
Record Fix := mkFix {
  lat : R;
  lon : R;
  timestamp : Z;
  speed : R;
  course : R;
  elevation : R
}.

(** One entry of the provider's [locations] array.  [speed] and
    [elevation] are read as [location.get('speed', {}).get('value', 0)]:
    the outer option is the presence of the key, the inner one the
    presence of its [value]. *)
Record location := mkLocation {
  loc_latitude : R;
  loc_longitude : R;
  loc_timestamp : Z;
  loc_speed : option (option R);
  loc_course : option R;
  loc_elevation : option (option R)
}.

(** The decoded response body. *)
Inductive body :=
| BodyInvalidJson                                   (* [response.json()] raises [JSONDecodeError] *)
| BodyJsonNonObject                                 (* valid JSON without a [.get] method *)
| BodyJson (locations : option (list location)).     (* a JSON object; [None]: no [locations] key *)

(** What one [session.get(..., timeout=10)] observes. *)
Inductive outcome :=
| NetTimeout                                        (* [requests.exceptions.Timeout] *)
| NetError                                          (* any other exception, e.g. a connection error *)
| Resp (status_code : Z) (b : body).

(** [collections.deque(maxlen=...)] *)
Record deque := mkDeque {
  maxlen : nat;
  items : list (R * R)
}.

(** [deque.append]: a full deque drops its leftmost item. *)
Definition deque_append (d : deque) (x : R * R) : deque :=
  if (List.length (items d) <? maxlen d)%nat
  then mkDeque (maxlen d) (items d ++ [x])
  else mkDeque (maxlen d) (tl (items d ++ [x])).

(** The per-boat dict of [add_boat] (without [marker], [path], [session]). *)
Record boat := mkBoat {
  share_id : string;
  color : string;
  history : deque;
  last_update : option Fix;
  cached_position : option Fix
}.

(** The tracker object (without [map], [session], [proximity_circle]). *)
Record tracker := mkTracker {
  boats : list (string * boat);
  history_length : nat;
  colors : list string;
  last_update_time : list (string * Z)
}.

Definition palette : list string :=
  ["blue"; "red"; "green"; "purple"; "orange"; "darkred"]%string.

(** [GarminShareTracker(history_length)] *)
Definition init_tracker (n : nat) : tracker :=
  mkTracker [] n palette [].

(* ------------------------------------------------------------------ *)
(** ** The effect monad: tracker state, network script, effect log and
    Python exceptions *)

Inductive event :=
| EvGet (url : string)          (* an HTTP request is issued *)
| EvSleep (seconds : Z)         (* [time.sleep] *)
| EvInfo                        (* [st.info] *)
| EvWarning                     (* [st.warning] *)
| EvError.                      (* [st.error] *)

Record world := mkWorld {
  w_tracker : tracker;
  w_net : list outcome;
  w_log : list event
}.

Inductive exn :=
| ExTimeout                     (* [requests.exceptions.Timeout] *)
| ExOther.                      (* any other [Exception] *)

Definition M (A : Type) : Type := world -> (exn + A) * world.

Definition ret {A} (a : A) : M A := fun w => (inr a, w).

Definition bind {A B} (m : M A) (k : A -> M B) : M B :=
  fun w => match m w with
           | (inl e, w') => (inl e, w')
           | (inr a, w') => k a w'
           end.

Notation "x <- m ;; k" := (bind m (fun x => k))
  (at level 61, m at next level, right associativity).
Notation "m ;;; k" := (bind m (fun _ => k))
  (at level 61, right associativity).

Definition raise {A} (e : exn) : M A := fun w => (inl e, w).

(** [try: m except e: h(e)]; effects of [m] before the raise persist. *)
Definition try_except {A} (m : M A) (h : exn -> M A) : M A :=
  fun w => match m w with
           | (inl e, w') => h e w'
           | (inr a, w') => (inr a, w')
           end.

Definition emit (e : event) : M unit :=
  fun w => (inr tt, mkWorld (w_tracker w) (w_net w) (w_log w ++ [e])).

Definition get_tracker : M tracker := fun w => (inr (w_tracker w), w).

Definition put_tracker (t : tracker) : M unit :=
  fun w => (inr tt, mkWorld t (w_net w) (w_log w)).

Definition sleep (s : Z) : M unit := emit (EvSleep s).

(** [session.get(url, ..., timeout=10)] *)
Definition http_get (url : string) : M (Z * body) :=
  fun w =>
    let w1 := mkWorld (w_tracker w) (tl (w_net w)) (w_log w ++ [EvGet url]) in
    match w_net w with
    | Resp s b :: _ => (inr (s, b), w1)
    | NetTimeout :: _ => (inl ExTimeout, w1)
    | NetError :: _ | [] => (inl ExOther, w1)
    end.

(* ------------------------------------------------------------------ *)
(** ** [get_position] *)

Definition base_url (sid : string) : string :=
  ("https://share.garmin.com/" ++ sid)%string.

Definition position_url (sid : string) : string :=
  ("https://share.garmin.com/Feed/Share/" ++ sid)%string.

(** [position_data] built from [data['locations'][0]]. *)
Definition fix_of_location (l : location) : Fix :=
  mkFix (loc_latitude l) (loc_longitude l) (loc_timestamp l)
        (match loc_speed l with Some (Some v) => v | _ => 0%R end)
        (match loc_course l with Some v => v | None => 0%R end)
        (match loc_elevation l with Some (Some v) => v | _ => 0%R end).

(** Lines 65-71: the cooldown gate.  [Some p] is the early return of the
    cached position; [None] falls through to the live fetch. *)
Definition cache_gate (boat_name : string) (current_time : Z) : M (option Fix) :=
  tr <- get_tracker ;;
  if current_time - Dict.get_default (last_update_time tr) boat_name 0 <? 300 then
    match Dict.get (boats tr) boat_name with
    | Some b =>
        match cached_position b with
        | Some p => emit EvInfo ;;; ret (Some p)
        | None => ret None
        end
    | None => ret None
    end
  else ret None.

(** Lines 148-149: store the new position and its fetch time. *)
Definition set_cache (tr : tracker) (boat_name : string) (current_time : Z) (p : Fix)
  : tracker :=
  mkTracker
    (Dict.update (boats tr) boat_name
       (fun b => mkBoat (share_id b) (color b) (history b) (last_update b) (Some p)))
    (history_length tr) (colors tr)
    (Dict.set (last_update_time tr) boat_name current_time).

Definition store_position (boat_name : string) (current_time : Z) (p : Fix) : M unit :=
  tr <- get_tracker ;;
  put_tracker (set_cache tr boat_name current_time p).

(** Lines 73-151: the live fetch (the body of the [try] after the gate). *)
Definition live_fetch (sid boat_name : string) (current_time : Z) : M (option Fix) :=
  tr <- get_tracker ;;
  (* [session = self.boats[boat_name]['session']]: a [KeyError] if absent *)
  match Dict.get (boats tr) boat_name with
  | None => raise ExOther
  | Some _ =>
      r <- http_get (base_url sid) ;;
      (if negb (fst r =? 200) then emit EvWarning ;;; sleep 5 else ret tt) ;;;
      sleep 2 ;;;
      r <- http_get (position_url sid) ;;
      r <- (if fst r =? 429
            then emit EvWarning ;;; sleep 120 ;;; http_get (position_url sid)
            else ret r) ;;
      if negb (fst r =? 200) then emit EvError ;;; ret None
      else
        match snd r with
        | BodyInvalidJson => emit EvError ;;; ret None
        | BodyJsonNonObject => raise ExOther          (* [data.get] on a non-dict *)
        | BodyJson (Some (l :: _)) =>
            let p := fix_of_location l in
            store_position boat_name current_time p ;;; ret (Some p)
        | BodyJson _ => emit EvError ;;; ret None     (* [not data.get('locations')] *)
        end
  end.

(** Lines 153-161: the exception handlers. *)
Definition get_position_handler (boat_name : string) (e : exn) : M (option Fix) :=
  match e with
  | ExTimeout => emit EvError ;;; ret None
  | ExOther =>
      emit EvError ;;;
      tr <- get_tracker ;;
      match Dict.get (boats tr) boat_name with
      | Some b =>
          match cached_position b with
          | Some p => ret (Some p)
          | None => ret None
          end
      | None => ret None
      end
  end.

(** [GarminShareTracker.get_position(share_id, boat_name)], at clock
    value [current_time]. *)
Definition get_position (sid boat_name : string) (current_time : Z) : M (option Fix) :=
  try_except
    (hit <- cache_gate boat_name current_time ;;
     match hit with
     | Some p => ret (Some p)
     | None => live_fetch sid boat_name current_time
     end)
    (get_position_handler boat_name).

(* ------------------------------------------------------------------ *)
(** ** [update_boat_position] *)

(** Lines 233-238: the fetched (or cached) position is appended to the
    history and becomes [last_update].  [boat_info] is the very dict held
    in [self.boats], so it is read after [get_position] updated it. *)
Definition update_boat_position (boat_name : string) (current_time : Z) : M unit :=
  tr <- get_tracker ;;
  match Dict.get (boats tr) boat_name with
  | None => ret tt
  | Some bi =>
      position <- get_position (share_id bi) boat_name current_time ;;
      match position with
      | None => ret tt
      | Some p =>
          tr' <- get_tracker ;;
          put_tracker
            (mkTracker
               (Dict.update (boats tr') boat_name
                  (fun b => mkBoat (share_id b) (color b)
                              (deque_append (history b) (lat p, lon p))
                              (Some p) (cached_position b)))
               (history_length tr') (colors tr') (last_update_time tr'))
      end
  end.

(* ------------------------------------------------------------------ *)
(** ** [add_boat] *)

(** [garmin_url.split('/')[-1]] *)
Fixpoint last_segment (s acc : string) : string :=
  match s with
  | EmptyString => acc
  | String c s' =>
      if Ascii.eqb c "/"%char then last_segment s' EmptyString
      else last_segment s' (acc ++ String c EmptyString)
  end.

Definition extract_share_id (garmin_url : string) : string :=
  last_segment garmin_url EmptyString.

(** [list.remove(x)]: drops the first occurrence. *)
Fixpoint remove_first (x : string) (l : list string) : list string :=
  match l with
  | [] => []
  | y :: l' => if String.eqb x y then l' else y :: remove_first x l'
  end.

(** [add_boat(name, garmin_share_url)]; [rnd] is the index that
    [random.choice] draws (taken modulo the length of the list).  [None]
    is the [IndexError] that [random.choice] raises on an empty list. *)
Definition add_boat (tr : tracker) (name garmin_share_url : string) (rnd : nat)
  : option tracker :=
  match colors tr with
  | [] => None
  | cs =>
      let c := nth (rnd mod List.length cs) cs EmptyString in
      Some (mkTracker
              (Dict.set (boats tr) name
                 (mkBoat (extract_share_id garmin_share_url) c
                         (mkDeque (history_length tr) []) None None))
              (history_length tr)
              (remove_first c cs)
              (Dict.set (last_update_time tr) name 0))
  end.

(** A sequence of registrations, stopping at the first failure. *)
Fixpoint add_boats (tr : tracker) (regs : list (string * string * nat)) : option tracker :=
  match regs with
  | [] => Some tr
  | (name, url, rnd) :: regs' =>
      match add_boat tr name url rnd with
      | Some tr' => add_boats tr' regs'
      | None => None
      end
  end.

(* ------------------------------------------------------------------ *)
(** ** Geodesy *)

Local Open Scope R_scope.

(** [math.radians] *)
Definition radians (x : R) : R := x * PI / 180.

(** [math.atan2(y, x)] (signed zeros are not modelled). *)
Definition atan2 (y x : R) : R :=
  if Rlt_dec 0 x then atan (y / x)
  else if Rlt_dec x 0 then
    (if Rle_dec 0 y then atan (y / x) + PI else atan (y / x) - PI)
  else if Rlt_dec 0 y then PI / 2
  else if Rlt_dec y 0 then - (PI / 2)
  else 0.

(** [calculate_distance(lat1, lon1, lat2, lon2)], in nautical miles. *)
Definition calculate_distance (lat1 lon1 lat2 lon2 : R) : R :=
  let R0 := 6371000 in
  let lat1 := radians lat1 in
  let lon1 := radians lon1 in
  let lat2 := radians lat2 in
  let lon2 := radians lon2 in
  let dlat := lat2 - lat1 in
  let dlon := lon2 - lon1 in
  let a := (sin (dlat / 2)) ^ 2 + cos lat1 * cos lat2 * (sin (dlon / 2)) ^ 2 in
  let c := 2 * atan2 (sqrt a) (sqrt (1 - a)) in
  let distance_m := R0 * c in
  distance_m / 1852.

Definition nautical_miles_to_meters (nm : R) : R := nm * 1852.

Definition noronha_coords : R * R := (-3.8547, -32.4248).

(* ------------------------------------------------------------------ *)
(** ** [find_closest_boat_to_noronha] *)

(** A float that may be [float('inf')]. *)
Inductive ext := Fin (r : R) | Inf.

(** [distance < min_distance] *)
Definition ext_lt (d : R) (m : ext) : bool :=
  match m with
  | Inf => true
  | Fin r => if Rlt_dec d r then true else false
  end.

(** The distance computed in the loop body of lines 196-199. *)
Definition distance_to_noronha (position : Fix) : R :=
  calculate_distance (fst noronha_coords) (snd noronha_coords) (lat position) (lon position).

Definition closest_step (acc : option string * option Fix * ext) (nb : string * boat)
  : option string * option Fix * ext :=
  let '(cb, cp, md) := acc in
  let '(boat_name, boat_info) := nb in
  match last_update boat_info with
  | Some position =>
      let distance := distance_to_noronha position in
      if ext_lt distance md then (Some boat_name, Some position, Fin distance)
      else (cb, cp, md)
  | None => (cb, cp, md)
  end.

Definition find_closest_boat_to_noronha (tr : tracker) : option string * option Fix * ext :=
  fold_left closest_step (boats tr) (None, None, Inf).

Local Close Scope R_scope.

(* ------------------------------------------------------------------ *)
(** ** [update_positions] *)



(* ------------------------------------------------------------------ *)
(** ** Start-up of the page *)

(** Lines 287-295: a tracker with the default [history_length=100] and
    the four boats of the page; [r1]..[r4] are the draws of
    [random.choice]. *)
Definition startup_tracker (r1 r2 r3 r4 : nat) : option tracker :=
  add_boats (init_tracker 100)
    [("Contessa", "https://share.garmin.com/contessa", r1);
     ("Azuluc", "https://share.garmin.com/AZULUC", r2);
     ("Finisterre", "https://share.garmin.com/FINISTERRE", r3);
     ("Yorugua", "https://share.garmin.com/YoruguaSY", r4)]%string.

(* ------------------------------------------------------------------ *)
(** ** Vocabulary of the properties *)

(** The [n] last elements of a list, in order. *)
Definition lastn {A} (n : nat) (l : list A) : list A :=
  skipn (List.length l - n) l.

(** A sequence of [deque.append] calls. *)
Definition deque_extend (d : deque) (xs : list (R * R)) : deque :=
  fold_left deque_append xs d.

Local Open Scope R_scope.

(** What [find_closest_boat_to_noronha] is expected to return after
    scanning the boats [bs] (registration order). *)
Definition closest_ok (bs : list (string * boat)) (res : option string * option Fix * ext)
  : Prop :=
  match res with
  | (None, None, Inf) => forall n b, In (n, b) bs -> last_update b = None
  | (Some n, Some p, Fin d) =>
      exists l1 b l2,
        bs = l1 ++ (n, b) :: l2 /\
        last_update b = Some p /\
        d = distance_to_noronha p /\
        (forall n' b' q, In (n', b') l1 -> last_update b' = Some q ->
                         d < distance_to_noronha q) /\
        (forall n' b' q, In (n', b') l2 -> last_update b' = Some q ->
                         d <= distance_to_noronha q)
  | _ => False
  end.

Local Close Scope R_scope.

(** The effects of lines 92-101: the request for the share page, the
    5-second pause when it does not answer 200, and the 2-second pause. *)
Definition base_page_log (sid : string) (status : Z) : list event :=
  [EvGet (base_url sid)] ++
  (if status =? 200 then [] else [EvWarning; EvSleep 5]) ++
  [EvSleep 2].

(** The [try] block of [get_position] with the cooldown gate skipped:
    what runs once the window has expired. *)
Definition fetch_without_gate (sid boat_name : string) (current_time : Z) : M (option Fix) :=
  try_except (live_fetch sid boat_name current_time) (get_position_handler boat_name).

(** A concrete run: "Contessa" registered on a fresh tracker (the first
    palette colour drawn), one location reported by the provider, and a
    network script whose first call succeeds and whose second call meets
    [last] as the feed's answer. *)
Definition contessa_tracker : tracker :=
  match add_boat (init_tracker 100) "Contessa" "https://share.garmin.com/contessa" 0 with
  | Some tr => tr
  | None => init_tracker 100
  end.

Definition contessa_boat : boat :=
  mkBoat "contessa" "blue" (mkDeque 100 []) None None.

Definition contessa_location : location :=
  mkLocation (-3)%R (-32)%R 1700000000000 None None None.

Definition two_fetches (last : outcome) : list outcome :=
  [Resp 200 (BodyJson None); Resp 200 (BodyJson (Some [contessa_location]));
   Resp 200 (BodyJson None); last].

(** Two calls of [get_position] for "Contessa", at clock [t1] then [t2]. *)
Definition contessa_twice (t1 t2 : Z) (last : outcome) : (exn + option Fix) * (exn + option Fix) :=
  let '(r1, w1) := get_position "contessa" "Contessa" t1
                     (mkWorld contessa_tracker (two_fetches last) []) in
  let '(r2, _) := get_position "contessa" "Contessa" t2 w1 in
  (r1, r2).

(** The colours of the registered boats, in registration order. *)
Definition boat_colors (bs : list (string * boat)) : list string :=
  map (fun nb => color (snd nb)) bs.

(** Six registrations, one of them re-registering a name. *)
Definition six_boats : list (string * string * nat) :=
  [("Contessa", "https://share.garmin.com/contessa", 3%nat);
   ("Azuluc", "https://share.garmin.com/AZULUC", 0%nat);
   ("Finisterre", "https://share.garmin.com/FINISTERRE", 7%nat);
   ("Yorugua", "https://share.garmin.com/YoruguaSY", 1%nat);
   ("Contessa", "https://share.garmin.com/contessa2", 2%nat);
   ("Sirius", "https://share.garmin.com/SIRIUS", 5%nat)]%string.

(** Whether a string contains a ['/']. *)
Fixpoint has_slash (s : string) : bool :=
  match s with
  | EmptyString => false
  | String c s' => (Ascii.eqb c "/"%char || has_slash s')%bool
  end.

(** The keys of a dict after [d[k] = v]. *)
Definition keys_after_set {V} (d : list (string * V)) (k : string) : list string :=
  match Dict.get d k with
  | Some _ => map fst d
  | None => map fst d ++ [k]
  end.






(** The fields of a boat record that [add_boat] sets from its arguments. *)
Definition reg_view (b : boat) : string * deque * option Fix * option Fix :=
  (share_id b, history b, last_update b, cached_position b).

Definition boats_view (d : list (string * boat))
  : list (string * (string * deque * option Fix * option Fix)) :=
  map (fun nb => (fst nb, reg_view (snd nb))) d.


(* ================================================================== *)
(** * Properties *)

(** ** Geodesy *)

Module Geodesy.

Local Open Scope R_scope.

Lemma sin_half_sq_swap (x y : R) : (sin ((y - x) / 2)) ^ 2 = (sin ((x - y) / 2)) ^ 2.
Proof.
  replace ((y - x) / 2) with (- ((x - y) / 2)) by field.
  rewrite sin_neg. ring.
Qed.

(** C7: [calculate_distance] is symmetric in its two points. *)
Theorem calculate_distance_sym (lat1 lon1 lat2 lon2 : R) :
  calculate_distance lat1 lon1 lat2 lon2 = calculate_distance lat2 lon2 lat1 lon1.
Proof.
  unfold calculate_distance.
  rewrite (sin_half_sq_swap (radians lat1) (radians lat2)).
  rewrite (sin_half_sq_swap (radians lon1) (radians lon2)).
  rewrite (Rmult_comm (cos (radians lat2)) (cos (radians lat1))).
  reflexivity.
Qed.

End Geodesy.

(** ** The bounded history *)

Module History.

Lemma deque_append_maxlen (d : deque) (x : R * R) :
  maxlen (deque_append d x) = maxlen d.
Proof. unfold deque_append; destruct (_ <? _)%nat; reflexivity. Qed.

Lemma deque_append_items (d : deque) (x : R * R) :
  (List.length (items d) <= maxlen d)%nat ->
  items (deque_append d x) = lastn (maxlen d) (items d ++ [x]).
Proof.
  intros Hle. unfold deque_append, lastn.
  rewrite length_app; simpl.
  destruct (Nat.ltb_spec (List.length (items d)) (maxlen d)) as [Hlt | Hge]; simpl.
  - replace (List.length (items d) + 1 - maxlen d)%nat with 0%nat by lia. reflexivity.
  - replace (List.length (items d) + 1 - maxlen d)%nat with 1%nat by lia.
    destruct (items d ++ [x]); reflexivity.
Qed.

Lemma lastn_length {A} (n : nat) (l : list A) : (List.length (lastn n l) <= n)%nat.
Proof. unfold lastn. rewrite length_skipn. lia. Qed.

Lemma lastn_all {A} (n : nat) (l : list A) : (List.length l <= n)%nat -> lastn n l = l.
Proof. intros H. unfold lastn. replace (List.length l - n)%nat with 0%nat by lia. reflexivity. Qed.

Lemma lastn_app {A} (n : nat) (l ys : list A) :
  lastn n (lastn n l ++ ys) = lastn n (l ++ ys).
Proof.
  unfold lastn at 2.
  set (k := (List.length l - n)%nat).
  assert (Hk : (k <= List.length l)%nat) by (unfold k; lia).
  assert (E : skipn k l ++ ys = skipn k (l ++ ys)).
  { rewrite skipn_app. replace (k - List.length l)%nat with 0%nat by lia. reflexivity. }
  rewrite E. unfold lastn. rewrite skipn_skipn, !length_skipn, length_app.
  f_equal. unfold k. lia.
Qed.

Lemma deque_extend_spec (d : deque) (xs : list (R * R)) :
  (List.length (items d) <= maxlen d)%nat ->
  maxlen (deque_extend d xs) = maxlen d /\
  items (deque_extend d xs) = lastn (maxlen d) (items d ++ xs).
Proof.
  unfold deque_extend. revert d.
  induction xs as [|x xs IH]; intros d Hle; simpl.
  - rewrite app_nil_r, lastn_all by exact Hle. auto.
  - assert (Hx := deque_append_items d x Hle).
    assert (Hl : (List.length (items (deque_append d x)) <= maxlen (deque_append d x))%nat).
    { rewrite Hx, deque_append_maxlen. apply lastn_length. }
    destruct (IH _ Hl) as [Hm Hi].
    rewrite deque_append_maxlen in Hm, Hi. split; [exact Hm|].
    rewrite Hi, Hx, lastn_app, <- app_assoc. reflexivity.
Qed.

(** C5: a history buffer created with capacity [N] (as [add_boat] does with
    [deque(maxlen=self.history_length)]) keeps capacity [N] through every
    append, never holds more than [N] positions, and holds exactly the [N]
    most recent ones in arrival order; after [N+1] appends the oldest one
    has been dropped. *)
Theorem history_fifo_bounded (N : nat) (xs : list (R * R)) :
  let d := deque_extend (mkDeque N []) xs in
  maxlen d = N /\
  (List.length (items d) <= N)%nat /\
  items d = lastn N xs /\
  (List.length xs = S N -> items d = tl xs).
Proof.
  cbv zeta.
  destruct (deque_extend_spec (mkDeque N []) xs (Nat.le_0_l N)) as [Hm Hi].
  simpl in Hm, Hi. rewrite Hi.
  split; [exact Hm|]. split; [apply lastn_length|]. split; [reflexivity|].
  intros Hl. unfold lastn. rewrite Hl. replace (S N - N)%nat with 1%nat by lia.
  destruct xs; reflexivity.
Qed.

End History.

(** ** The proximity evaluator *)

Module Proximity.

Local Open Scope R_scope.

Lemma closest_fold_ok (bs : list (string * boat)) :
  closest_ok bs (fold_left closest_step bs (None, None, Inf)).
Proof.
  induction bs as [|[n' b'] bs IH] using rev_ind.
  - simpl. intros n b [].
  - rewrite fold_left_app. simpl.
    destruct (fold_left closest_step bs (None, None, Inf)) as [[cb cp] md].
    unfold closest_step.
    destruct (last_update b') as [q|] eqn:Eb'.
    + destruct cb as [n|], cp as [p|], md as [d|]; simpl in IH |- *; try contradiction.
      * (* an earlier best at distance d *)
        destruct IH as (l1 & b & l2 & Hbs & Hb & Hd & H1 & H2).
        destruct (Rlt_dec (distance_to_noronha q) d) as [Hlt|Hnlt]; simpl.
        -- exists (bs), b', []. repeat split; auto.
           ++ intros n'' b'' q' Hin Hq'. subst bs.
              apply in_app_or in Hin as [Hin|[Heq|Hin]].
              ** specialize (H1 _ _ _ Hin Hq'). lra.
              ** inversion Heq; subst. rewrite Hb in Hq'. inversion Hq'; subst. lra.
              ** specialize (H2 _ _ _ Hin Hq'). lra.
           ++ intros n'' b'' q' [].
        -- exists l1, b, (l2 ++ [(n', b')]). subst bs. repeat split; auto.
           ++ rewrite <- app_assoc. reflexivity.
           ++ intros n'' b'' q' Hin Hq'.
              apply in_app_or in Hin as [Hin|[Heq|[]]]; [eauto|].
              inversion Heq; subst. rewrite Eb' in Hq'. inversion Hq'; subst. lra.
      * (* no earlier fix *)
        exists bs, b', []. repeat split; auto.
        -- intros n'' b'' q' Hin Hq'. rewrite (IH _ _ Hin) in Hq'. discriminate.
        -- intros n'' b'' q' [].
    + destruct cb as [n|], cp as [p|], md as [d|]; simpl in IH |- *; try contradiction.
      * destruct IH as (l1 & b & l2 & Hbs & Hb & Hd & H1 & H2).
        exists l1, b, (l2 ++ [(n', b')]). subst bs. repeat split; auto.
        -- rewrite <- app_assoc. reflexivity.
        -- intros n'' b'' q' Hin Hq'.
           apply in_app_or in Hin as [Hin|[Heq|[]]]; [eauto|].
           inversion Heq; subst. rewrite Eb' in Hq'. discriminate.
      * intros n b Hin. apply in_app_or in Hin as [Hin|[Heq|[]]]; [eauto|].
        inversion Heq; subst. exact Eb'.
Qed.

(** C4: [find_closest_boat_to_noronha] only considers boats whose
    [last_update] is set; it returns the first-registered boat among those
    at minimum haversine distance from the reference point (every earlier
    boat with a fix is strictly farther, every later one at least as far),
    with that fix and that distance; when no boat has a fix it returns no
    boat, no fix and an infinite distance. *)
Theorem find_closest_spec (tr : tracker) :
  closest_ok (boats tr) (find_closest_boat_to_noronha tr) /\
  ((forall n b, In (n, b) (boats tr) -> last_update b = None) ->
   find_closest_boat_to_noronha tr = (None, None, Inf)).
Proof.
  assert (H := closest_fold_ok (boats tr)).
  unfold find_closest_boat_to_noronha. split; [exact H|].
  intros Hnone.
  destruct (fold_left closest_step (boats tr) (None, None, Inf)) as [[[n|] [p|]] [d|]];
    simpl in H; try contradiction; try reflexivity.
  destruct H as (l1 & b & l2 & Hbs & Hb & _).
  rewrite (Hnone n b) in Hb; [discriminate|].
  rewrite Hbs. apply in_or_app. right. left. reflexivity.
Qed.

End Proximity.

(** ** Dictionary facts *)

Module DictFacts.

Lemma get_set_same {V} (d : list (string * V)) (k : string) (v : V) :
  Dict.get (Dict.set d k v) k = Some v.
Proof.
  induction d as [|[k' v'] d IH]; simpl.
  - rewrite String.eqb_refl. reflexivity.
  - destruct (String.eqb k k') eqn:E; simpl; rewrite E; [reflexivity | exact IH].
Qed.

Lemma get_update_same {V} (d : list (string * V)) (k : string) (f : V -> V) (v : V) :
  Dict.get d k = Some v -> Dict.get (Dict.update d k f) k = Some (f v).
Proof.
  induction d as [|[k' v'] d IH]; simpl; [discriminate|].
  destruct (String.eqb k k') eqn:E; simpl; rewrite E.
  - intros H. inversion H; reflexivity.
  - exact IH.
Qed.

End DictFacts.

(** ** The position fetcher *)

Module Fetcher.

(** Unfold the monadic layers of [get_position]. *)
Ltac unfold_gp :=
  unfold get_position, try_except, get_position_handler, cache_gate, live_fetch,
    store_position, sleep, bind, ret, raise, emit, get_tracker, put_tracker, http_get;
  simpl.

(** Split on every pending branch of the code. *)
Ltac split_branches :=
  repeat (match goal with
          | H : ?x = _ |- context [match ?x with _ => _ end] => rewrite H
          | |- context [match ?x with _ => _ end] =>
              lazymatch x with
              | context [match _ with _ => _ end] => fail
              | _ => destruct x eqn:?
              end
          end; simpl).

(** Every run of [get_position] ends in one of three ways: the cooldown
    gate returns the cache; a live fetch succeeds and stores its fix; or a
    failure is reported with [st.error] and the tracker is unchanged. *)
Lemma get_position_cases (sid name : string) (t : Z) (tr : tracker) (net : list outcome) :
  let '(r, w') := get_position sid name t (mkWorld tr net []) in
  (exists b p, Dict.get (boats tr) name = Some b /\ cached_position b = Some p /\
     t - Dict.get_default (last_update_time tr) name 0 < 300 /\
     r = inr (Some p) /\ w' = mkWorld tr net [EvInfo])
  \/ (exists b p, Dict.get (boats tr) name = Some b /\ r = inr (Some p) /\
     w_tracker w' = set_cache tr name t p /\ ~ In EvError (w_log w'))
  \/ (w_tracker w' = tr /\ In EvError (w_log w') /\
     (r = inr None \/ exists b p, Dict.get (boats tr) name = Some b /\
                                  cached_position b = Some p /\ r = inr (Some p))).
Proof.
  unfold_gp. split_branches.
  all: first
    [ left; do 2 eexists; split; [reflexivity|]; split; [eassumption|];
      split; [apply Z.ltb_lt; assumption|]; split; reflexivity
    | right; left; do 2 eexists; split; [reflexivity|]; split; [reflexivity|];
      split; [reflexivity|]; simpl; intuition discriminate
    | right; right; split; [reflexivity|]; split; [simpl; auto 20|];
      first [left; reflexivity | right; do 2 eexists; split; [reflexivity|];
                                 split; [eassumption | reflexivity]] ].
Qed.

Lemma set_cache_boat (tr : tracker) (name : string) (t : Z) (p : Fix) (b : boat) :
  Dict.get (boats tr) name = Some b ->
  Dict.get (boats (set_cache tr name t p)) name =
    Some (mkBoat (share_id b) (color b) (history b) (last_update b) (Some p)).
Proof. intros H. unfold set_cache; simpl. erewrite DictFacts.get_update_same; [reflexivity | exact H]. Qed.

Lemma set_cache_time (tr : tracker) (name : string) (t : Z) (p : Fix) :
  Dict.get_default (last_update_time (set_cache tr name t p)) name 0 = t.
Proof. unfold set_cache, Dict.get_default; simpl. rewrite DictFacts.get_set_same. reflexivity. Qed.

(** C8: on every path of [get_position] that reports a failure with
    [st.error] (a failed fetch after a cooldown miss, a timeout, or any
    other exception), the tracker (hence every [cached_position] and
    [last_update_time]) is unchanged; the tracker changes only on a
    successful live fetch, and then the vessel's cached position and its
    fetch time are both set, to the returned fix and the call's clock. *)
Theorem get_position_atomic (sid name : string) (t : Z) (tr : tracker) (net : list outcome) :
  let '(r, w') := get_position sid name t (mkWorld tr net []) in
  (In EvError (w_log w') -> w_tracker w' = tr) /\
  (w_tracker w' = tr \/
   exists b p,
     r = inr (Some p) /\ ~ In EvError (w_log w') /\
     w_tracker w' = set_cache tr name t p /\
     Dict.get (boats (w_tracker w')) name =
       Some (mkBoat (share_id b) (color b) (history b) (last_update b) (Some p)) /\
     Dict.get_default (last_update_time (w_tracker w')) name 0 = t).
Proof.
  assert (H := get_position_cases sid name t tr net).
  destruct (get_position sid name t (mkWorld tr net [])) as [r w'].
  destruct H as [(b & p & Hb & Hc & Ht & Hr & Hw) | [(b & p & Hb & Hr & Hw & Hne) | (Hw & He & Hr)]].
  - subst w'. simpl. split; [intros [H|[]]; discriminate | left; reflexivity].
  - split; [intros H; contradiction|].
    right. exists b, p. repeat split; auto; rewrite Hw.
    + apply set_cache_boat; exact Hb.
    + apply set_cache_time.
  - split; [intros _; exact Hw | left; exact Hw].
Qed.

(** The cooldown gate, on any world. *)
Lemma cache_gate_hit (sid name : string) (t : Z) (w : world) (b : boat) (p : Fix) :
  Dict.get (boats (w_tracker w)) name = Some b ->
  cached_position b = Some p ->
  t - Dict.get_default (last_update_time (w_tracker w)) name 0 < 300 ->
  get_position sid name t w =
    (inr (Some p), mkWorld (w_tracker w) (w_net w) (w_log w ++ [EvInfo])).
Proof.
  intros Hb Hc Ht. destruct w as [tr net log]; simpl in *.
  unfold_gp. apply Z.ltb_lt in Ht. rewrite Ht, Hb, Hc. reflexivity.
Qed.

(** C2: within 300 seconds of a vessel's last successful fetch,
    [get_position] returns the cached fix, issues no request (the network
    script is untouched, only [st.info] is logged) and changes nothing;
    hence, of two calls for the same vessel where the first one does not
    fail and the second one falls within the cooldown window, the second
    issues no request and returns the same fix as the first. *)
Theorem cooldown_serves_cache :
  (forall (sid name : string) (t : Z) (w : world) (b : boat) (p : Fix),
     Dict.get (boats (w_tracker w)) name = Some b ->
     cached_position b = Some p ->
     t - Dict.get_default (last_update_time (w_tracker w)) name 0 < 300 ->
     get_position sid name t w =
       (inr (Some p), mkWorld (w_tracker w) (w_net w) (w_log w ++ [EvInfo]))) /\
  (forall (sid name : string) (t1 t2 : Z) (tr : tracker) (net : list outcome),
     let '(r1, w1) := get_position sid name t1 (mkWorld tr net []) in
     let '(r2, w2) := get_position sid name t2 w1 in
     ~ In EvError (w_log w1) ->
     t2 - Dict.get_default (last_update_time (w_tracker w1)) name 0 < 300 ->
     r2 = r1 /\ w2 = mkWorld (w_tracker w1) (w_net w1) (w_log w1 ++ [EvInfo])).
Proof.
  split; [exact cache_gate_hit|].
  intros sid name t1 t2 tr net.
  assert (H := get_position_cases sid name t1 tr net).
  destruct (get_position sid name t1 (mkWorld tr net [])) as [r1 w1].
  destruct H as [(b & p & Hb & Hc & Ht & Hr & Hw) | [(b & p & Hb & Hr & Hw & Hne) | (Hw & He & Hr)]].
  - subst w1 r1. simpl.
    destruct (get_position sid name t2 _) as [r2 w2] eqn:E2.
    intros _ Ht2.
    rewrite (cache_gate_hit sid name t2 (mkWorld tr net [EvInfo]) b p Hb Hc Ht2) in E2.
    inversion E2; subst. split; reflexivity.
  - destruct (get_position sid name t2 w1) as [r2 w2] eqn:E2.
    intros _ Ht2.
    rewrite (cache_gate_hit sid name t2 w1
               (mkBoat (share_id b) (color b) (history b) (last_update b) (Some p)) p) in E2.
    + inversion E2; subst. split; reflexivity.
    + rewrite Hw. apply set_cache_boat. exact Hb.
    + reflexivity.
    + exact Ht2.
  - destruct (get_position sid name t2 w1). intros Hne. contradiction.
Qed.

(** When the gate does not fire, [get_position] is the live fetch. *)
Lemma get_position_no_gate (sid name : string) (t : Z) (w : world) :
  (forall b p, Dict.get (boats (w_tracker w)) name = Some b -> cached_position b = Some p ->
               300 <= t - Dict.get_default (last_update_time (w_tracker w)) name 0) ->
  get_position sid name t w = fetch_without_gate sid name t w.
Proof.
  intros Hg. destruct w as [tr net log]; simpl in Hg.
  unfold get_position, fetch_without_gate, try_except, cache_gate, bind, get_tracker; simpl.
  destruct (t - Dict.get_default (last_update_time tr) name 0 <? 300) eqn:Et;
    [|reflexivity].
  destruct (Dict.get (boats tr) name) as [b|] eqn:Eb; [|reflexivity].
  destruct (cached_position b) as [p|] eqn:Ec; [|reflexivity].
  apply Z.ltb_lt in Et. specialize (Hg b p eq_refl Ec). lia.
Qed.

(** C3: once the share page has been requested (any status), a 429 from
    the feed is followed by a warning, a 120-second sleep and exactly one
    more request to the feed.  If that retry answers 200 with a location,
    the call returns the retry's fix, reports no error and stores it; if
    the retry answers 429 again it is not retried: the call reports an
    error, returns [None] and leaves the tracker unchanged. *)
Theorem rate_limit_retry_once (sid name : string) (t : Z) (tr : tracker) (b : boat)
  (sb : Z) (bb b1 b2 : body) (l : location) (ls : list location) (rest : list outcome)
  (Hb : Dict.get (boats tr) name = Some b)
  (Hgate : cached_position b = None \/
           300 <= t - Dict.get_default (last_update_time tr) name 0) :
  get_position sid name t
    (mkWorld tr (Resp sb bb :: Resp 429 b1 :: Resp 200 (BodyJson (Some (l :: ls))) :: rest) [])
  = (inr (Some (fix_of_location l)),
     mkWorld (set_cache tr name t (fix_of_location l)) rest
       (base_page_log sid sb ++
        [EvGet (position_url sid); EvWarning; EvSleep 120; EvGet (position_url sid)]))
  /\
  get_position sid name t (mkWorld tr (Resp sb bb :: Resp 429 b1 :: Resp 429 b2 :: rest) [])
  = (inr None,
     mkWorld tr rest
       (base_page_log sid sb ++
        [EvGet (position_url sid); EvWarning; EvSleep 120; EvGet (position_url sid);
         EvError])).
Proof.
  assert (Hg : forall w, w_tracker w = tr ->
               forall b' p, Dict.get (boats (w_tracker w)) name = Some b' ->
               cached_position b' = Some p ->
               300 <= t - Dict.get_default (last_update_time (w_tracker w)) name 0).
  { intros w Hw b' p Hb' Hc. rewrite Hw in *. rewrite Hb in Hb'. inversion Hb'; subst.
    destruct Hgate as [Hn|Hle]; [congruence | exact Hle]. }
  split; (rewrite get_position_no_gate; [| apply Hg; reflexivity]);
    unfold fetch_without_gate, live_fetch, store_position, sleep, bind, ret, try_except,
      emit, get_tracker, put_tracker, http_get, base_page_log; cbn; rewrite Hb; cbn;
    destruct (sb =? 200); reflexivity.
Qed.

(** C10: when the vessel has no cached position, [get_position] behaves
    exactly as when the cooldown window has expired (it runs the live
    fetch), whether or not the window is active; its first effect is the
    request for the vessel's share page. *)
Theorem no_cache_fetches_live (sid name : string) (t : Z) (w : world) (b : boat)
  (Hb : Dict.get (boats (w_tracker w)) name = Some b)
  (Hc : cached_position b = None) :
  get_position sid name t w = fetch_without_gate sid name t w /\
  exists rest, w_log (snd (get_position sid name t w)) = w_log w ++ EvGet (base_url sid) :: rest.
Proof.
  assert (E : get_position sid name t w = fetch_without_gate sid name t w).
  { apply get_position_no_gate. intros b' p Hb' Hc'. congruence. }
  split; [exact E|]. rewrite E.
  destruct w as [tr net log]; simpl in Hb.
  unfold fetch_without_gate, get_position_handler, live_fetch, store_position, sleep,
    bind, ret, try_except, emit, get_tracker, put_tracker, http_get, raise; simpl.
  rewrite Hb; simpl. split_branches.
  all: repeat rewrite <- app_assoc; simpl; eexists; reflexivity.
Qed.

(** C1 (failing input): [get_position] never raises; but after a
    successful fetch at clock 1000 has cached a fix, a second fetch at clock 1400 (cooldown expired) whose feed
    request answers 500, or times out, returns [None] instead of the
    cached fix; only an exception other than a timeout falls back to the
    cache. *)
Theorem failed_fetch_ignores_cache :
  (forall sid name t tr net,
     exists v, fst (get_position sid name t (mkWorld tr net [])) = inr v) /\
  contessa_twice 1000 1400 (Resp 500 BodyInvalidJson)
    = (inr (Some (fix_of_location contessa_location)), inr None) /\
  contessa_twice 1000 1400 NetTimeout
    = (inr (Some (fix_of_location contessa_location)), inr None) /\
  contessa_twice 1000 1400 NetError
    = (inr (Some (fix_of_location contessa_location)),
       inr (Some (fix_of_location contessa_location))).
Proof.
  split; [|split; [|split]]; try reflexivity.
  intros sid name t tr net.
  assert (H := get_position_cases sid name t tr net).
  destruct (get_position sid name t (mkWorld tr net [])) as [r w'].
  destruct H as [(b & p & _ & _ & _ & Hr & _) | [(b & p & _ & Hr & _) |
                 (_ & _ & [Hr | (b & p & _ & _ & Hr)])]];
    simpl; subst r; eauto.
Qed.

(** Whenever [get_position] returns a fix, the vessel's record afterwards
    holds that fix as its cached position, the rest of it untouched. *)
Lemma get_position_some_boat (sid name : string) (t : Z) (tr : tracker)
  (net : list outcome) (b : boat) (p : Fix) :
  Dict.get (boats tr) name = Some b ->
  fst (get_position sid name t (mkWorld tr net [])) = inr (Some p) ->
  Dict.get (boats (w_tracker (snd (get_position sid name t (mkWorld tr net []))))) name =
    Some (mkBoat (share_id b) (color b) (history b) (last_update b) (Some p)).
Proof.
  intros Hb.
  assert (H := get_position_cases sid name t tr net).
  destruct (get_position sid name t (mkWorld tr net [])) as [r w']; simpl.
  intros Hr; subst r.
  destruct H as [(b' & p' & Hb' & Hc & _ & Hr & Hw) | [(b' & p' & Hb' & Hr & Hw & _) |
                 (Hw & _ & [Hr | (b' & p' & Hb' & Hc & Hr)])]].
  - subst w'; simpl. rewrite Hb in Hb'. inversion Hb'; subst b'.
    inversion Hr; subst p'. rewrite Hb. destruct b; simpl in *; subst; reflexivity.
  - rewrite Hw. rewrite Hb in Hb'. inversion Hb'; subst b'.
    inversion Hr; subst p'. apply set_cache_boat; exact Hb.
  - discriminate.
  - rewrite Hw. rewrite Hb in Hb'. inversion Hb'; subst b'.
    inversion Hr; subst p'. rewrite Hb. destruct b; simpl in *; subst; reflexivity.
Qed.

(** One refresh of a vessel after [get_position] returned a fix. *)
Lemma update_after_fix (name : string) (t : Z) (w w1 : world) (b b1 : boat) (p : Fix) :
  Dict.get (boats (w_tracker w)) name = Some b ->
  get_position (share_id b) name t w = (inr (Some p), w1) ->
  Dict.get (boats (w_tracker w1)) name = Some b1 ->
  let w2 := snd (update_boat_position name t w) in
  Dict.get (boats (w_tracker w2)) name =
    Some (mkBoat (share_id b1) (color b1) (deque_append (history b1) (lat p, lon p))
                 (Some p) (cached_position b1)) /\
  last_update_time (w_tracker w2) = last_update_time (w_tracker w1) /\
  w_net w2 = w_net w1 /\ w_log w2 = w_log w1.
Proof.
  intros Hb Hg Hb1. unfold update_boat_position, bind, get_tracker, put_tracker, ret.
  destruct w as [tr net log]; simpl in *. rewrite Hb, Hg. simpl.
  split; [|auto]. erewrite DictFacts.get_update_same; [reflexivity | exact Hb1].
Qed.

(** C9: [update_boat_position] appends the coordinates of whatever fix
    [get_position] returns (live, from the cooldown cache, or from the
    exception fallback) to the vessel's history and stores it as
    [last_update]; so two refresh cycles inside the cooldown window serve
    the cached fix twice (no request) and append its coordinates twice. *)
Theorem update_appends_returned_fix (name : string) (t t' : Z) (tr : tracker)
  (net : list outcome) (b : boat) (p : Fix)
  (Hb : Dict.get (boats tr) name = Some b) :
  (fst (get_position (share_id b) name t (mkWorld tr net [])) = inr (Some p) ->
   Dict.get (boats (w_tracker (snd (update_boat_position name t (mkWorld tr net []))))) name
   = Some (mkBoat (share_id b) (color b) (deque_append (history b) (lat p, lon p))
                  (Some p) (Some p)))
  /\
  (cached_position b = Some p -> t <= t' ->
   t' - Dict.get_default (last_update_time tr) name 0 < 300 ->
   let w2 := snd (update_boat_position name t'
                    (snd (update_boat_position name t (mkWorld tr net [])))) in
   Dict.get (boats (w_tracker w2)) name
   = Some (mkBoat (share_id b) (color b)
                  (deque_append (deque_append (history b) (lat p, lon p)) (lat p, lon p))
                  (Some p) (Some p)) /\
   w_net w2 = net /\ w_log w2 = [EvInfo; EvInfo]).
Proof.
  split.
  - intros Hr.
    assert (Hb1 := get_position_some_boat (share_id b) name t tr net b p Hb Hr).
    destruct (get_position (share_id b) name t (mkWorld tr net [])) as [r w1] eqn:E.
    simpl in Hr, Hb1. subst r.
    destruct (update_after_fix name t (mkWorld tr net []) w1 b _ p Hb E Hb1) as [H _].
    exact H.
  - intros Hc Hle Ht.
    assert (E1 := cache_gate_hit (share_id b) name t (mkWorld tr net []) b p Hb Hc
                    ltac:(simpl; lia)).
    assert (Hb0 : Dict.get (boats (w_tracker (mkWorld tr net [EvInfo]))) name =
                  Some (mkBoat (share_id b) (color b) (history b) (last_update b) (Some p))).
    { simpl. rewrite Hb. destruct b; simpl in *; subst; reflexivity. }
    destruct (update_after_fix name t (mkWorld tr net []) _ b _ p Hb E1 Hb0)
      as (H1 & T1 & N1 & L1).
    simpl in H1, T1, N1, L1.
    set (w1 := snd (update_boat_position name t (mkWorld tr net []))) in *.
    assert (E2 := cache_gate_hit (share_id b) name t' w1 _ p H1 eq_refl
                    ltac:(rewrite T1; exact Ht)).
    simpl in E2.
    destruct (update_after_fix name t' w1 _ _ _ p H1 E2 H1) as (H2 & _ & N2 & L2).
    simpl in H2, N2, L2. cbv zeta.
    rewrite H2, N2, L2, N1, L1. auto.
Qed.

End Fetcher.

(** ** The vessel registry *)

Module Registry.

Local Open Scope nat_scope.

Lemma set_colors (d : list (string * boat)) (k : string) (v : boat) :
  (exists l1 x l2, boat_colors d = l1 ++ x :: l2 /\
                   boat_colors (Dict.set d k v) = l1 ++ color v :: l2) \/
  boat_colors (Dict.set d k v) = boat_colors d ++ [color v].
Proof.
  induction d as [|[k' v'] d IH]; simpl; [right; reflexivity|].
  destruct (String.eqb k k').
  - left. exists [], (color v'), (boat_colors d). split; reflexivity.
  - destruct IH as [(l1 & x & l2 & E1 & E2) | E].
    + left. exists (color v' :: l1), x, l2. unfold boat_colors in *; simpl.
      rewrite E1, E2. split; reflexivity.
    + right. unfold boat_colors in *; simpl. rewrite E. reflexivity.
Qed.

Lemma remove_first_split (c : string) (l : list string) :
  In c l -> exists A B, l = A ++ c :: B /\ remove_first c l = A ++ B.
Proof.
  induction l as [|y l IH]; simpl; [intros []|].
  destruct (String.eqb_spec c y) as [E|E].
  - intros _. subst y. exists [], l. split; reflexivity.
  - intros [H|H]; [congruence|].
    destruct (IH H) as (A & B & E1 & E2).
    exists (y :: A), B. rewrite E2, E1. split; reflexivity.
Qed.

(** After [k] registrations, the boats' colours, the colours left and
    the colours lost to overwritten registrations are the palette. *)
Definition colors_inv (tr : tracker) (k : nat) : Prop :=
  exists dropped,
    Permutation (boat_colors (boats tr) ++ colors tr ++ dropped) palette /\
    List.length (boat_colors (boats tr)) + List.length dropped = k.

Lemma colors_inv_init (n : nat) : colors_inv (init_tracker n) 0.
Proof. exists []. split; [simpl; apply Permutation_refl | reflexivity]. Qed.

Lemma colors_inv_left (tr : tracker) (k : nat) :
  colors_inv tr k -> List.length (colors tr) = 6 - k.
Proof.
  intros (dropped & P & L). apply Permutation_length in P.
  rewrite !length_app in P. simpl in P. lia.
Qed.

Lemma add_boat_step (tr : tracker) (k : nat) (name url : string) (rnd : nat) :
  colors_inv tr k -> k < 6 ->
  exists tr', add_boat tr name url rnd = Some tr' /\ colors_inv tr' (S k).
Proof.
  intros Hi Hk. assert (Hl := colors_inv_left tr k Hi).
  destruct Hi as (dropped & P & L).
  unfold add_boat. destruct (colors tr) as [|c0 cs0] eqn:Ec.
  { assert (List.length (@nil string) = 0) by reflexivity. lia. }
  cbv beta iota zeta.
  remember (c0 :: cs0) as cs eqn:Ecs.
  remember (nth (rnd mod List.length cs) cs EmptyString) as c eqn:Ecc.
  assert (Hin : In c cs).
  { subst c. apply nth_In. apply Nat.mod_upper_bound. subst cs; simpl; lia. }
  destruct (remove_first_split c cs Hin) as (A & B & EA & ER).
  eexists; split; [reflexivity|]. unfold colors_inv; simpl. rewrite ER.
  set (nb := mkBoat (extract_share_id url) c (mkDeque (history_length tr) []) None None).
  destruct (set_colors (boats tr) name nb) as [(l1 & x & l2 & E1 & E2) | E].
  - exists (x :: dropped). rewrite E2. simpl. split.
    + rewrite <- P, E1, EA. rewrite <- !app_assoc. simpl.
      apply Permutation_app_head.
      transitivity (c :: x :: l2 ++ A ++ B ++ dropped).
      * apply perm_skip.
        replace (l2 ++ A ++ B ++ x :: dropped) with ((l2 ++ A ++ B) ++ x :: dropped)
          by (rewrite <- !app_assoc; reflexivity).
        replace (l2 ++ A ++ B ++ dropped) with ((l2 ++ A ++ B) ++ dropped)
          by (rewrite <- !app_assoc; reflexivity).
        apply Permutation_sym, Permutation_middle.
      * transitivity (x :: c :: l2 ++ A ++ B ++ dropped); [apply perm_swap|].
        apply perm_skip.
        replace (l2 ++ A ++ c :: B ++ dropped) with ((l2 ++ A) ++ c :: B ++ dropped)
          by (rewrite <- !app_assoc; reflexivity).
        replace (l2 ++ A ++ B ++ dropped) with ((l2 ++ A) ++ B ++ dropped)
          by (rewrite <- !app_assoc; reflexivity).
        apply Permutation_middle.
    + rewrite E1 in L. rewrite !length_app in *. simpl in *. lia.
  - exists dropped. rewrite E. split.
    + rewrite <- P, EA. rewrite <- !app_assoc. simpl.
      apply Permutation_app_head. apply Permutation_middle.
    + rewrite length_app. simpl. lia.
Qed.

Lemma add_boats_inv (regs : list (string * string * nat)) (tr : tracker) (k : nat) :
  colors_inv tr k -> k + List.length regs <= 6 ->
  exists tr', add_boats tr regs = Some tr' /\ colors_inv tr' (k + List.length regs).
Proof.
  revert tr k. induction regs as [|[[name url] rnd] regs IH]; intros tr k Hi Hk; simpl.
  - exists tr. rewrite Nat.add_0_r. auto.
  - simpl in Hk. destruct (add_boat_step tr k name url rnd Hi ltac:(lia)) as (tr1 & E & Hi1).
    rewrite E. destruct (IH tr1 (S k) Hi1 ltac:(lia)) as (tr' & E' & Hi').
    exists tr'. split; [exact E'|]. replace (k + S (List.length regs)) with (S k + List.length regs) by lia.
    exact Hi'.
Qed.

Lemma palette_NoDup : NoDup palette.
Proof.
  unfold palette. repeat constructor; simpl;
    intros H; repeat destruct H as [H|H]; try discriminate; exact H.
Qed.

(** C6: from a fresh tracker, any sequence of at most 6 registrations
    succeeds, whatever colours [random.choice] draws, and the registered
    boats carry pairwise distinct palette colours; after 6 registrations
    the colour list is empty and a 7th [add_boat] fails ([random.choice]
    raises [IndexError]) instead of reusing a colour. *)
Theorem add_boat_colors_distinct (n : nat) (regs : list (string * string * nat))
  (Hlen : List.length regs <= 6) :
  exists tr',
    add_boats (init_tracker n) regs = Some tr' /\
    NoDup (boat_colors (boats tr')) /\
    incl (boat_colors (boats tr')) palette /\
    (List.length regs = 6 -> forall name url rnd, add_boat tr' name url rnd = None).
Proof.
  destruct (add_boats_inv regs (init_tracker n) 0 (colors_inv_init n) ltac:(lia))
    as (tr' & E & Hi).
  exists tr'. split; [exact E|].
  assert (Hl := colors_inv_left tr' _ Hi).
  destruct Hi as (dropped & P & _).
  assert (ND := Permutation_NoDup (Permutation_sym P) palette_NoDup).
  split; [exact (NoDup_app_remove_r _ _ ND)|]. split.
  - intros c Hc. apply (Permutation_in _ P). apply in_or_app. left. exact Hc.
  - intros H6 name url rnd. unfold add_boat.
    rewrite H6 in Hl. simpl in Hl.
    destruct (colors tr'); [reflexivity | simpl in Hl; lia].
Qed.

End Registry.

(** ** Concrete instances *)

Module Witnesses.

Lemma contessa_registered :
  Dict.get (boats contessa_tracker) "Contessa"%string = Some contessa_boat.
Proof. reflexivity. Qed.

Lemma rate_limit_retry_once_witness :
  Dict.get (boats contessa_tracker) "Contessa"%string = Some contessa_boat /\
  (cached_position contessa_boat = None \/
   300 <= 1000 - Dict.get_default (last_update_time contessa_tracker) "Contessa"%string 0) /\
  get_position "contessa" "Contessa" 1000
    (mkWorld contessa_tracker
       (Resp 404 BodyInvalidJson :: Resp 429 BodyInvalidJson ::
        Resp 200 (BodyJson (Some [contessa_location])) :: []) [])
  = (inr (Some (fix_of_location contessa_location)),
     mkWorld (set_cache contessa_tracker "Contessa" 1000 (fix_of_location contessa_location)) []
       (base_page_log "contessa" 404 ++
        [EvGet (position_url "contessa"); EvWarning; EvSleep 120;
         EvGet (position_url "contessa")])).
Proof.
  split; [reflexivity|]. split; [left; reflexivity|].
  apply (Fetcher.rate_limit_retry_once "contessa" "Contessa" 1000 contessa_tracker
           contessa_boat 404 BodyInvalidJson BodyInvalidJson BodyInvalidJson
           contessa_location [] []).
  - reflexivity.
  - left; reflexivity.
Defined.

Lemma no_cache_fetches_live_witness :
  Dict.get (boats contessa_tracker) "Contessa"%string = Some contessa_boat /\
  cached_position contessa_boat = None /\
  get_position "contessa" "Contessa" 10 (mkWorld contessa_tracker [] [])
    = fetch_without_gate "contessa" "Contessa" 10 (mkWorld contessa_tracker [] []).
Proof.
  split; [reflexivity|]. split; [reflexivity|].
  apply (Fetcher.no_cache_fetches_live "contessa" "Contessa" 10
           (mkWorld contessa_tracker [] []) contessa_boat); reflexivity.
Defined.

Lemma update_appends_returned_fix_witness :
  Dict.get (boats contessa_tracker) "Contessa"%string = Some contessa_boat /\
  fst (get_position (share_id contessa_boat) "Contessa" 1000
         (mkWorld contessa_tracker (two_fetches NetError) [])) =
    inr (Some (fix_of_location contessa_location)) /\
  Dict.get (boats (w_tracker (snd (update_boat_position "Contessa" 1000
                                    (mkWorld contessa_tracker (two_fetches NetError) [])))))
           "Contessa"%string
  = Some (mkBoat (share_id contessa_boat) (color contessa_boat)
                 (deque_append (history contessa_boat)
                    (lat (fix_of_location contessa_location), lon (fix_of_location contessa_location)))
                 (Some (fix_of_location contessa_location))
                 (Some (fix_of_location contessa_location))).
Proof.
  split; [reflexivity|]. split; [reflexivity|].
  apply (proj1 (Fetcher.update_appends_returned_fix "Contessa" 1000 1100 contessa_tracker
                  (two_fetches NetError) contessa_boat (fix_of_location contessa_location)
                  contessa_registered)).
  reflexivity.
Defined.

Lemma add_boat_colors_distinct_witness :
  (List.length six_boats <= 6)%nat /\
  exists tr',
    add_boats (init_tracker 100) six_boats = Some tr' /\
    NoDup (boat_colors (boats tr')) /\
    incl (boat_colors (boats tr')) palette /\
    (List.length six_boats = 6%nat -> forall name url rnd, add_boat tr' name url rnd = None).
Proof.
  split; [simpl; lia|].
  apply (Registry.add_boat_colors_distinct 100 six_boats). simpl; lia.
Defined.

End Witnesses.

(** ** Further properties of the tracker *)

Module Extra.

Lemma string_app_assoc (s1 s2 s3 : string) :
  (s1 ++ (s2 ++ s3) = (s1 ++ s2) ++ s3)%string.
Proof. induction s1 as [|c s1 IH]; simpl; [reflexivity | now rewrite IH]. Qed.

Lemma last_segment_app (s1 s2 acc : string) :
  last_segment (s1 ++ s2) acc = last_segment s2 (last_segment s1 acc).
Proof.
  revert acc. induction s1 as [|c s1 IH]; intros acc; simpl; [reflexivity|].
  destruct (Ascii.eqb c "/"%char); apply IH.
Qed.

Lemma last_segment_no_slash (s acc : string) :
  has_slash s = false -> last_segment s acc = (acc ++ s)%string.
Proof.
  revert acc. induction s as [|c s IH]; intros acc H; simpl in *.
  - induction acc as [|c acc IHa]; simpl; [reflexivity | now rewrite <- IHa].
  - apply Bool.orb_false_iff in H as [Hc Hs]. rewrite Hc.
    rewrite IH by exact Hs. rewrite <- string_app_assoc. reflexivity.
Qed.

(** [garmin_url.split('/')[-1]] is the text after the last ['/'] of the
    URL: for a URL [prefix/seg] whose [seg] has no ['/'] the share id is
    [seg] (empty when the URL ends with ['/']), and a URL without any
    ['/'] is its own share id. *)
Theorem extract_share_id_last_segment (prefix seg : string)
  (Hseg : has_slash seg = false) :
  extract_share_id (prefix ++ String "/" seg) = seg /\ extract_share_id seg = seg.
Proof.
  unfold extract_share_id. rewrite last_segment_app. simpl.
  rewrite !last_segment_no_slash by exact Hseg. simpl. split; reflexivity.
Qed.

Local Open Scope R_scope.

(** [calculate_distance] of a point to itself is [0]. *)
Theorem calculate_distance_self (lat0 lon0 : R) :
  calculate_distance lat0 lon0 lat0 lon0 = 0.
Proof.
  unfold calculate_distance, atan2.
  rewrite !Rminus_diag, Rdiv_0_l, sin_0.
  replace (0 ^ 2 + cos (radians lat0) * cos (radians lat0) * 0 ^ 2) with 0 by ring.
  rewrite Rminus_0_r, sqrt_0, sqrt_1.
  destruct (Rlt_dec 0 1) as [_|H]; [|lra].
  rewrite Rdiv_0_l, atan_0. field.
Qed.





Local Close Scope R_scope.

(** ** Dictionary frame lemmas *)

Lemma get_set_other {V} (d : list (string * V)) (k n : string) (v : V) :
  n <> k -> Dict.get (Dict.set d k v) n = Dict.get d n.
Proof.
  intros Hne. induction d as [|[k' v'] d IH]; simpl.
  - destruct (String.eqb_spec n k); [contradiction | reflexivity].
  - destruct (String.eqb_spec k k'); simpl.
    + subst k'. destruct (String.eqb_spec n k); [contradiction | reflexivity].
    + destruct (String.eqb n k'); [reflexivity | exact IH].
Qed.



Lemma keys_set {V} (d : list (string * V)) (k : string) (v : V) :
  map fst (Dict.set d k v) = keys_after_set d k.
Proof.
  unfold keys_after_set. induction d as [|[k' v'] d IH]; simpl; [reflexivity|].
  destruct (String.eqb_spec k k'); simpl; [reflexivity|].
  destruct (Dict.get d k); simpl in *; rewrite IH; reflexivity.
Qed.


Lemma map_set_proj {V X} (g : V -> X) (d : list (string * V)) (k : string) (v : V) :
  map (fun kv => (fst kv, g (snd kv))) (Dict.set d k v) =
  Dict.set (map (fun kv => (fst kv, g (snd kv))) d) k (g v).
Proof.
  induction d as [|[k' v'] d IH]; simpl; [reflexivity|].
  destruct (String.eqb k k'); simpl; [reflexivity | rewrite IH; reflexivity].
Qed.



(** ** Frames of one refresh *)





(** [get_position] on any world: it returns a value, and leaves the
    tracker as it was or stores the fix it returns. *)
Lemma get_position_effect (sid name : string) (t : Z) (w : world) :
  exists v, fst (get_position sid name t w) = inr v /\
  (w_tracker (snd (get_position sid name t w)) = w_tracker w \/
   exists p, v = Some p /\
     w_tracker (snd (get_position sid name t w)) = set_cache (w_tracker w) name t p).
Proof.
  destruct w as [tr net log]. Fetcher.unfold_gp. Fetcher.split_branches.
  all: eexists; split; [reflexivity|]; simpl;
       first [left; reflexivity | right; eexists; split; reflexivity].
Qed.



(** When [get_position] returns [None] for a registered boat (a failed
    fetch), [update_boat_position] appends nothing and sets no
    [last_update]: the world afterwards is the one [get_position] left,
    and its tracker is the one before the call. *)
Theorem update_boat_position_failed_fetch (name : string) (t : Z) (w : world) (b : boat)
  (Hb : Dict.get (boats (w_tracker w)) name = Some b)
  (Hnone : fst (get_position (share_id b) name t w) = inr None) :
  snd (update_boat_position name t w) = snd (get_position (share_id b) name t w) /\
  w_tracker (snd (update_boat_position name t w)) = w_tracker w.
Proof.
  destruct (get_position_effect (share_id b) name t w) as (v & Hv & Ht).
  rewrite Hnone in Hv. injection Hv as <-.
  destruct Ht as [Ht | (p & E & _)]; [|discriminate].
  destruct w as [tr net log]; simpl in *.
  unfold update_boat_position, bind, get_tracker, ret. simpl. rewrite Hb. simpl.
  destruct (get_position (share_id b) name t (mkWorld tr net log)) as [r w1].
  simpl in Hnone, Ht. subst r. simpl. split; [reflexivity | exact Ht].
Qed.

(** A name that is not a key of [self.boats]: [get_position] issues no
    request, reports an error and returns [None] with the tracker
    unchanged (the [KeyError] on [self.boats[boat_name]] is caught by the
    generic handler, which finds no cache), whatever the clock and the
    fetch times say. *)
Theorem unregistered_boat_ignored (sid name : string) (t : Z) (w : world)
  (Hn : Dict.get (boats (w_tracker w)) name = None) :
  get_position sid name t w = (inr None, mkWorld (w_tracker w) (w_net w) (w_log w ++ [EvError])).
Proof.
  destruct w as [tr net log]; simpl in Hn.
  Fetcher.unfold_gp. Fetcher.split_branches. all: reflexivity.
Qed.

(** The answer to the share-page request (lines 92-97) only decides
    whether a warning and a 5-second pause are logged: the result, the
    tracker afterwards and the number of requests issued are the same for any
    status and body of that answer. *)
Theorem share_page_response_ignored (sid name : string) (t : Z) (tr : tracker)
  (net : list outcome) (log : list event) (s1 s2 : Z) (b1 b2 : body) :
  fst (get_position sid name t (mkWorld tr (Resp s1 b1 :: net) log)) =
    fst (get_position sid name t (mkWorld tr (Resp s2 b2 :: net) log)) /\
  w_tracker (snd (get_position sid name t (mkWorld tr (Resp s1 b1 :: net) log))) =
    w_tracker (snd (get_position sid name t (mkWorld tr (Resp s2 b2 :: net) log))) /\
  List.length (w_net (snd (get_position sid name t (mkWorld tr (Resp s1 b1 :: net) log)))) =
    List.length (w_net (snd (get_position sid name t (mkWorld tr (Resp s2 b2 :: net) log)))).
Proof.
  Fetcher.unfold_gp. Fetcher.split_branches. all: split; [|split]; reflexivity.
Qed.

(** ** The refresh loop *)






(** ** Registration *)

(** [add_boat] on an empty colour list raises (the [IndexError] of
    [random.choice]); otherwise it stores a fresh record under [name]
    (share id from the URL, colour drawn from the list, empty history of
    capacity [history_length], no fixes), in place if [name] was already
    a key and last otherwise, leaves the other boats alone, sets the
    fetch time of [name] to [0] and removes exactly one colour. *)
Theorem add_boat_fresh_record (tr : tracker) (name url : string) (rnd : nat) :
  (colors tr = [] -> add_boat tr name url rnd = None) /\
  (colors tr <> [] ->
   exists tr' c,
     add_boat tr name url rnd = Some tr' /\ In c (colors tr) /\
     Dict.get (boats tr') name =
       Some (mkBoat (extract_share_id url) c (mkDeque (history_length tr) []) None None) /\
     map fst (boats tr') = keys_after_set (boats tr) name /\
     (forall n, n <> name -> Dict.get (boats tr') n = Dict.get (boats tr) n) /\
     Dict.get (last_update_time tr') name = Some 0 /\
     history_length tr' = history_length tr /\
     colors tr' = remove_first c (colors tr) /\
     S (List.length (colors tr')) = List.length (colors tr)).
Proof.
  split.
  - intros E. unfold add_boat. rewrite E. reflexivity.
  - intros Hne. unfold add_boat. destruct (colors tr) as [|c0 cs0] eqn:Ec; [contradiction|].
    cbv beta iota zeta.
    remember (c0 :: cs0) as cs eqn:Ecs.
    remember (nth (rnd mod List.length cs) cs EmptyString) as c eqn:Ecc.
    assert (Hin : In c cs).
    { subst c. apply nth_In. apply Nat.mod_upper_bound. subst cs; simpl; lia. }
    destruct (Registry.remove_first_split c cs Hin) as (A & B & EA & ER).
    eexists; exists c. split; [reflexivity|]. simpl.
    split; [exact Hin|]. split; [apply DictFacts.get_set_same|].
    split; [apply keys_set|]. split; [intros n Hn; apply get_set_other; exact Hn|].
    split; [apply DictFacts.get_set_same|]. split; [reflexivity|]. split; [reflexivity|].
    rewrite ER, EA, !length_app. simpl. lia.
Qed.

Lemma add_boat_view (tr : tracker) (n u : string) (r : nat) (tr' : tracker) :
  add_boat tr n u r = Some tr' ->
  boats_view (boats tr') =
    Dict.set (boats_view (boats tr)) n
      (extract_share_id u, mkDeque (history_length tr) [], None, None) /\
  history_length tr' = history_length tr /\
  last_update_time tr' = Dict.set (last_update_time tr) n 0.
Proof.
  unfold add_boat. destruct (colors tr); [discriminate|].
  intros E; injection E as <-. simpl. unfold boats_view. rewrite map_set_proj.
  split; [|split]; reflexivity.
Qed.

Lemma add_boats_view (regs : list (string * string * nat)) :
  forall tr tr', add_boats tr regs = Some tr' ->
  boats_view (boats tr') =
    fold_left (fun acc r => Dict.set acc (fst (fst r))
                              (extract_share_id (snd (fst r)),
                               mkDeque (history_length tr) [], None, None))
              regs (boats_view (boats tr)) /\
  history_length tr' = history_length tr /\
  last_update_time tr' =
    fold_left (fun acc r => Dict.set acc (fst (fst r)) 0) regs (last_update_time tr).
Proof.
  induction regs as [|[[n u] r] regs IH]; intros tr tr'; simpl.
  - intros E; injection E as <-. auto.
  - destruct (add_boat tr n u r) as [tr1|] eqn:E1; [|discriminate]. intros E.
    destruct (add_boat_view _ _ _ _ _ E1) as (V1 & L1 & T1).
    destruct (IH tr1 tr' E) as (V2 & L2 & T2).
    split; [rewrite V2, V1, L1; reflexivity|].
    split; [congruence | rewrite T2, T1; reflexivity].
Qed.

(** Start-up (lines 287-295): whatever colours are drawn, the four
    registrations succeed; the boats are "Contessa", "Azuluc",
    "Finisterre" and "Yorugua" in this order, with the share ids
    "contessa", "AZULUC", "FINISTERRE" and "YoruguaSY", empty histories of
    capacity 100, no fixes and fetch time 0; their colours are distinct
    palette colours and two colours are left. *)
Theorem startup_registers_four (r1 r2 r3 r4 : nat) :
  exists tr,
    startup_tracker r1 r2 r3 r4 = Some tr /\
    boats_view (boats tr) =
      [("Contessa", ("contessa", mkDeque 100 [], None, None));
       ("Azuluc", ("AZULUC", mkDeque 100 [], None, None));
       ("Finisterre", ("FINISTERRE", mkDeque 100 [], None, None));
       ("Yorugua", ("YoruguaSY", mkDeque 100 [], None, None))]%string /\
    last_update_time tr =
      [("Contessa", 0); ("Azuluc", 0); ("Finisterre", 0); ("Yorugua", 0)]%string /\
    NoDup (boat_colors (boats tr)) /\
    incl (boat_colors (boats tr)) palette /\
    List.length (colors tr) = 2%nat.
Proof.
  unfold startup_tracker.
  match goal with
  | |- exists tr, add_boats ?t0 ?regs = _ /\ _ =>
      destruct (Registry.add_boats_inv regs t0 0 (Registry.colors_inv_init 100))
        as (tr & E & Hi); [simpl; lia|]
  end.
  exists tr. destruct (add_boats_view _ _ _ E) as (V & _ & T).
  assert (Hl := Registry.colors_inv_left tr _ Hi).
  destruct Hi as (dropped & P & _).
  split; [exact E|]. split; [rewrite V; reflexivity|]. split; [rewrite T; reflexivity|].
  assert (ND := Permutation_NoDup (Permutation_sym P) Registry.palette_NoDup).
  split; [exact (NoDup_app_remove_r _ _ ND)|]. split.
  - intros c Hc. apply (Permutation_in _ P). apply in_or_app. left. exact Hc.
  - rewrite Hl. reflexivity.
Qed.

(** ** Concrete instances *)

Lemma extract_share_id_last_segment_witness :
  has_slash "contessa" = false /\
  extract_share_id ("https://share.garmin.com" ++ String "/" "contessa") = "contessa"%string /\
  extract_share_id "contessa" = "contessa"%string.
Proof. split; [reflexivity|]. apply extract_share_id_last_segment. reflexivity. Defined.


Lemma update_boat_position_failed_fetch_witness :
  Dict.get (boats contessa_tracker) "Contessa"%string = Some contessa_boat /\
  fst (get_position (share_id contessa_boat) "Contessa" 1000
         (mkWorld contessa_tracker [Resp 200 (BodyJson None); Resp 500 BodyInvalidJson] [])) =
    inr None /\
  w_tracker (snd (update_boat_position "Contessa" 1000
                    (mkWorld contessa_tracker
                       [Resp 200 (BodyJson None); Resp 500 BodyInvalidJson] []))) =
    contessa_tracker.
Proof.
  assert (Hb : Dict.get (boats contessa_tracker) "Contessa"%string = Some contessa_boat)
    by reflexivity.
  assert (Hn : fst (get_position (share_id contessa_boat) "Contessa" 1000
                      (mkWorld contessa_tracker
                         [Resp 200 (BodyJson None); Resp 500 BodyInvalidJson] [])) = inr None)
    by reflexivity.
  split; [exact Hb|]. split; [exact Hn|].
  exact (proj2 (update_boat_position_failed_fetch "Contessa" 1000
                  (mkWorld contessa_tracker [Resp 200 (BodyJson None); Resp 500 BodyInvalidJson] [])
                  contessa_boat Hb Hn)).
Defined.

Lemma unregistered_boat_ignored_witness :
  Dict.get (boats contessa_tracker) "Azuluc"%string = None /\
  get_position "AZULUC" "Azuluc" 1000 (mkWorld contessa_tracker [] []) =
    (inr None, mkWorld contessa_tracker [] [EvError]).
Proof.
  assert (Hn : Dict.get (boats contessa_tracker) "Azuluc"%string = None) by reflexivity.
  split; [exact Hn|].
  exact (unregistered_boat_ignored "AZULUC" "Azuluc" 1000 (mkWorld contessa_tracker [] []) Hn).
Defined.


End Extra.
